(** * gatsby-plugin-page-creator: the page synchronisation engine,
      the collection registry and the [gatsbyPath] resolver

    A shallow embedding of
    [packages/gatsby-plugin-page-creator/src/gatsby-node.ts].

    The file exports three functions:
    - [createPagesStatefully]: checks the options, globs the pages
      directory, creates one page per file and then installs the two watch
      handlers (file added / file removed) that share the mutable set
      [knownFiles];
    - [setFieldsOnGraphQLNodeType]: for a collection type, the [gatsbyPath]
      field whose resolver attaches the parent node to a shallow copy of
      the source node and hands that copy to [derivePath];
    - [onPreInit]: scans the pages directory for collection templates and
      fills the module-level map [knownCollections].

    Everything the file imports (the path library, the glob and watch
    collaborators, the page registry actions, the GraphQL parser,
    [derivePath], ...) is a capability of the host and is passed
    explicitly. *)

From Stdlib Require Import Ascii String.
From stdpp Require Import gmap strings list fin_maps.

Open Scope string_scope.
Open Scope list_scope.

Set Warnings "-clear-no-such-hyp".

(** ** Exceptions *)

(** A JavaScript call either returns or throws; [e.message] is the only part
    of an exception the source ever looks at. *)
Inductive Result (A : Type) : Type :=
| Ok (a : A)
| Throw (message : string).
Arguments Ok {A} a.
Arguments Throw {A} message.

(** A call that is handed the reporter can end in a third way: it reports a
    panic of its own, under an id of its choice, and the process is over. *)
Inductive Ending (A : Type) : Type :=
| Settled (r : Result A)
| Exited (id : string).
Arguments Settled {A} r.
Arguments Exited {A} id.

Coercion Settled : Result >-> Ending.

(** The expected type reaches the components of a pair, so that a [Result]
    paired with a registry is read as an [Ending] where one is expected. *)
Arguments pair {A B}%_type_scope & _ _.

(** ** The page registry *)

(** A registered page, as far as this file reads and writes it:
    [{ path, component }]. *)
Record Page := mkPage { path : string; component : string }.

#[global] Instance Page_eq_dec : EqDecision Page.
Proof. solve_decision. Defined.

(** The calls the engine makes on its collaborators, in order. *)
Inductive Effect :=
| GlobCall (pattern cwd : string)
| CreatePageCall (file pagesDirectory : string)
| DeletePageCall (page : Page)
| WatchCall (dir pattern : string).

#[global] Instance Effect_eq_dec : EqDecision Effect.
Proof. solve_decision. Defined.

(** [store.getState().pages] together with the record of the calls made. *)
Record World := mkWorld { pages : list Page; log : list Effect }.

(** ** The host *)

(** What the file imports from outside the plugin. *)
Record Host := mkHost {
  join : string → string → string;        (* systemPath.join *)
  resolve : string → string → string;     (* systemPath.resolve *)
  cwd : string;                           (* process.cwd() *)
  existsSync : string → bool;             (* fs-exists-cached *)
  glob : string → string → list string;   (* globby: pattern, cwd *)
  createPath : string → string;           (* gatsby-page-utils *)
}.

(** The two calls that change the page registry: [createPage] of
    [./create-page-wrapper] (file, pagesDirectory, ignore) and the
    [deletePage] action.  Either may throw; whether it returns or throws, it
    leaves a registry behind. *)
Record Actions := mkActions {
  createPage :
    string → string → list string → list Page → Result unit * list Page;
  deletePage : Page → list Page → Result unit * list Page;
}.

(** ** A state-and-exception monad over [World] *)

Definition M (A : Type) : Type := World → Result A * World.

#[global] Instance M_ret : MRet M := λ A a w, (Ok a, w).

#[global] Instance M_bind : MBind M := λ A B k m w,
  match m w with
  | (Ok a, w') => k a w'
  | (Throw e, w') => (Throw e, w')
  end.

Definition tell (e : Effect) : M unit :=
  λ w, (Ok tt, mkWorld (pages w) (log w ++ [e])).

Definition getPages : M (list Page) := λ w, (Ok (pages w), w).

(** Run a registry action on the current store. *)
Definition onStore (f : list Page → Result unit * list Page) : M unit :=
  λ w, let (r, ps) := f (pages w) in (r, mkWorld ps (log w)).

Fixpoint forEach {A} (f : A → M unit) (l : list A) : M unit :=
  match l with
  | [] => mret tt
  | x :: l' => f x ;; forEach f l'
  end.

(** ** Options and sessions *)

(** [IOptions]; a field the caller left out is [None]. *)
Record Options := mkOptions {
  opt_path : option string;
  opt_pathCheck : option bool;
  opt_ignore : list string;
}.

(** [!pagesPath]: [undefined] and the empty string are falsy. *)
Definition falsy (s : option string) : bool :=
  match s with
  | None => true
  | Some s => if decide (s = "") then true else false
  end.

(** What the two watch handlers close over. *)
Record Session := mkSession {
  pagesDirectory : string;
  ignore : list string;
  knownFiles : gset string;
}.

(** [reporter.panic] ends the process: the payload and the world at that
    point are all that is left. *)
Inductive PanicContext :=
| MissingPathOption
| PathDoesNotExist (pagesPath : string)
| SourceMessage (message : string).

Inductive Outcome :=
| Panicked (id : string) (context : PanicContext) (w : World)
| Watching (s : Session) (w : World).

(** ** [createPagesStatefully] *)

(** [e.slice(1)] *)
Definition slice1 (e : string) : string :=
  match e with
  | EmptyString => EmptyString
  | String _ rest => rest
  end.

Definition extsOf (extensions : list string) : string :=
  String.concat "," (map slice1 extensions).

Definition pagesGlobOf (extensions : list string) : string :=
  "**/*.{" +:+ extsOf extensions +:+ "}".

Section Engine.
Variable H : Host.
Variable A : Actions.

Definition callCreatePage (file dir : string) (ign : list string) : M unit :=
  tell (CreatePageCall file dir) ;; onStore (createPage A file dir ign).

Definition callDeletePage (pg : Page) : M unit :=
  tell (DeletePageCall pg) ;; onStore (deletePage A pg).

(** Lines 75-84 and the call of [watchDirectory]. *)
Definition initialScan (extensions : list string) (pagesPath : string)
    (ign : list string) : M Session :=
  let pagesDirectory := resolve H (cwd H) pagesPath in
  let pagesGlob := pagesGlobOf extensions in
  tell (GlobCall pagesGlob pagesPath) ;;
  let files := glob H pagesGlob pagesPath in
  forEach (λ file, callCreatePage file pagesDirectory ign) files ;;
  let knownFiles := list_to_set files in
  tell (WatchCall pagesPath pagesGlob) ;;
  mret (mkSession pagesDirectory ign knownFiles).

Definition createPagesStatefully (extensions : list string) (o : Options)
    (w : World) : Outcome :=
  if falsy (opt_path o) then Panicked "1" MissingPathOption w
  else
    let pagesPath := default "" (opt_path o) in
    let pathCheck := default true (opt_pathCheck o) in
    if pathCheck && negb (existsSync H pagesPath)
    then Panicked "1" (PathDoesNotExist pagesPath) w
    else
      match initialScan extensions pagesPath (opt_ignore o) w with
      | (Ok s, w') => Watching s w'
      | (Throw e, w') => Panicked "1" (SourceMessage e) w'
      end.

(** *** The [added] handler (lines 89-110) *)

Definition addedBody (s : Session) (addedPath : string) : M Session :=
  if decide (addedPath ∈ knownFiles s) then mret s
  else
    callCreatePage addedPath (pagesDirectory s) (ignore s) ;;
    mret (mkSession (pagesDirectory s) (ignore s)
           ({[addedPath]} ∪ knownFiles s)).

Definition onAdded (s : Session) (addedPath : string) (w : World) : Outcome :=
  match addedBody s addedPath w with
  | (Ok s', w') => Watching s' w'
  | (Throw e, w') => Panicked "1" (SourceMessage e) w'
  end.

(** *** The [removed] handler (lines 111-132) *)

(** One turn of [store.getState().pages.forEach]: the store is changed in
    place by [deletePage], and an entry deleted before its turn is not
    visited. *)
Definition removedVisit (removedPath componentPath : string) (page : Page)
    : M unit :=
  cur ← getPages;
  if decide (page ∈ cur) then
    if decide (component page = componentPath) then
      callDeletePage (mkPage (createPath H removedPath) componentPath)
    else mret tt
  else mret tt.

Definition removedBody (s : Session) (removedPath : string) : M Session :=
  let componentPath := join H (pagesDirectory s) removedPath in
  ps ← getPages;
  forEach (removedVisit removedPath componentPath) ps ;;
  mret (mkSession (pagesDirectory s) (ignore s)
         (knownFiles s ∖ {[removedPath]})).

Definition onRemoved (s : Session) (removedPath : string) (w : World)
    : Outcome :=
  match removedBody s removedPath w with
  | (Ok s', w') => Watching s' w'
  | (Throw e, w') => Panicked "1" (SourceMessage e) w'
  end.

End Engine.

(** ** The page registry actions *)

(** The route and the owning file the [removed] handler computes for a
    path (lines 114 and 118). *)
Definition pageOf (H : Host) (dir file : string) : Page :=
  mkPage (createPath H file) (join H dir file).

(** A registry holds at most one page per (route, owning file). *)
Definition register (pg : Page) (ps : list Page) : list Page :=
  if decide (pg ∈ ps) then ps else ps ++ [pg].

(** Modelled from the spec: the body of [createPage]
    ([./create-page-wrapper]) is not part of this file.  A page is
    identified by its route and its owning file, at most one page exists per
    such pair, and page creation is an idempotent call on the registry that
    takes a route and an owning file.  Creating the page of a source file
    registers the page with the route and the owning file computed from the
    path. *)
Definition specCreatePage (H : Host) (file dir : string) (ign : list string)
    (ps : list Page) : Result unit * list Page :=
  (Ok tt, register (pageOf H dir file) ps).

(** Modelled from the spec: the body of the [deletePage] action is not part
    of this file.  Page deletion is an idempotent call on the registry that
    takes a route and an owning file: the page with that identity, if
    registered, is removed. *)
Definition specDeletePage (pg : Page) (ps : list Page)
    : Result unit * list Page :=
  (Ok tt, filter (λ q, q ≠ pg) ps).

Definition specActions (H : Host) : Actions :=
  mkActions (specCreatePage H) specDeletePage.

(** ** Watch events *)

Inductive Event := FileAdded (p : string) | FileRemoved (p : string).

Definition handle (H : Host) (A : Actions) (ev : Event) (s : Session)
    (w : World) : Outcome :=
  match ev with
  | FileAdded p => onAdded A s p w
  | FileRemoved p => onRemoved H A s p w
  end.





Fixpoint handleAll (H : Host) (A : Actions) (evs : list Event) (s : Session)
    (w : World) : Outcome :=
  match evs with
  | [] => Watching s w
  | ev :: evs' =>
      match handle H A ev s w with
      | Watching s' w' => handleAll H A evs' s' w'
      | Panicked id c w' => Panicked id c w'
      end
  end.

(** ** [onPreInit]: the collection registry *)

(** The part of the GraphQL syntax tree the scan reads. *)
#[warnings="-register-all"]
Inductive Selection :=
| Field (name : string) (selections : list Selection)
| FragmentSpread (name : string)
| InlineFragment (selections : list Selection).

Inductive DefinitionNode :=
| OperationDefinition (selections : list Selection)
| FragmentDefinition (name : string) (selections : list Selection)
| TypeSystemDefinition.

(** [collectionExtractQueryString] is called with the reporter (lines
    260-263): it returns the query string, throws, or reports a panic of
    its own. *)
Record ScanHost := mkScanHost {
  requireResolve : string → Result string;
  collectionExtractQueryString : string → Ending (option string);
  parse : string → Result (list DefinitionNode);
}.

#[global] Instance Result_ret : MRet Result := λ A a, Ok a.

#[global] Instance Result_bind : MBind Result := λ A B k r,
  match r with
  | Ok a => k a
  | Throw e => Throw e
  end.

(** [ast.definitions[0].selectionSet.selections[0].name.value]; reading a
    property of [undefined] is a [TypeError]. *)
Definition firstSelectionName (ast : list DefinitionNode) : Result string :=
  match ast with
  | [] => Throw "TypeError"
  | OperationDefinition sels :: _ | FragmentDefinition _ sels :: _ =>
      match sels with
      | [] => Throw "TypeError"
      | Field name _ :: _ => Ok name
      | FragmentSpread name :: _ => Ok name
      | InlineFragment _ :: _ => Throw "TypeError"
      end
  | TypeSystemDefinition :: _ => Throw "TypeError"
  end.

Definition collectionsGlob : string := "**/\{*\}**".

Section Registry.
Variable H : Host.
Variable S : ScanHost.

(** The callback of [files.map] (lines 256-271): its promise is fulfilled
    or rejected, unless the extractor ended the run. *)
Definition scanFile (pagesPath relativePath : string)
    (known : gmap string string) : Ending (gmap string string) :=
  match requireResolve S (join H pagesPath relativePath) with
  | Throw e => Throw e
  | Ok absolutePath =>
      match collectionExtractQueryString S absolutePath with
      | Exited id => Exited id
      | Settled (Throw e) => Throw e
      | Settled (Ok queryString) =>
          if falsy queryString then Ok known
          else
            Settled (ast ← parse S (default "" queryString);
                     name ← firstSelectionName ast;
                     Ok (<[name := relativePath]> known))
      end
  end.

(** The callbacks in the order in which their ends take effect: a
    registration, a panic the extractor reported, or, for a rejected
    promise, the panic of the catch block that [Promise.all] wakes.  The
    run is over at the first end that is not a registration; the registry
    returned with it is the one the callbacks before it left, not the one at
    the moment the process ends. *)
Fixpoint scanFiles (pagesPath : string) (files : list string)
    (known : gmap string string)
    : Ending unit * gmap string string :=
  match files with
  | [] => (Settled (Ok tt), known)
  | f :: files' =>
      match scanFile pagesPath f known with
      | Settled (Ok known') => scanFiles pagesPath files' known'
      | Settled (Throw e) => (Settled (Throw e), known)
      | Exited id => (Exited id, known)
      end
  end.

(** How the scan ends: with the registry filled, in the panic of the catch
    block (lines 273-280), or in a panic the extractor reported. *)
Inductive ScanOutcome :=
| ScanDone (known : gmap string string)
| ScanPanicked (id : string) (context : PanicContext)
| ScanExited (id : string).

Definition onPreInit (pagesPath : string) (known : gmap string string)
    : ScanOutcome :=
  let files := glob H collectionsGlob pagesPath in
  match scanFiles pagesPath files known with
  | (Settled (Ok _), known') => ScanDone known'
  | (Settled (Throw e), _) => ScanPanicked "1" (SourceMessage e)
  | (Exited id, _) => ScanExited id
  end.

End Registry.


Definition collectionFragment : string := "CollectionPagesQueryFragment".




(** The template file [f] resolves, has the non-empty query [q], and the
    first selection of the first definition of [q] is named [name]. *)
Definition yieldsQuery (H : Host) (S : ScanHost) (pagesPath f q : string)
    (ast : list DefinitionNode) (name : string) : Prop :=
  ∃ absolutePath,
    requireResolve S (join H pagesPath f) = Ok absolutePath ∧
    collectionExtractQueryString S absolutePath = Ok (Some q) ∧
    q ≠ "" ∧
    parse S q = Ok ast ∧
    firstSelectionName ast = Ok name.

Definition registersAs (H : Host) (S : ScanHost) (pagesPath f name : string)
    : Prop :=
  ∃ q ast, yieldsQuery H S pagesPath f q ast name.

(** ** [setFieldsOnGraphQLNodeType]: the [gatsbyPath] resolver *)

(** JavaScript values; objects live in the heap and are referred to by
    their address. *)
Inductive Value :=
| VUndefined
| VNull
| VBool (b : bool)
| VNumber (z : Z)
| VString (s : string)
| VRef (l : nat).

#[global] Instance Value_eq_dec : EqDecision Value.
Proof. solve_decision. Defined.

(** The own enumerable properties of an object, in insertion order. *)
Definition Obj : Type := list (string * Value).
Definition Heap : Type := list Obj.

Fixpoint getProp (o : Obj) (k : string) : Value :=
  match o with
  | [] => VUndefined
  | (k', v) :: o' => if decide (k' = k) then v else getProp o' k
  end.

(** [o[k] = v]: an existing property keeps its place, a new one goes last. *)
Fixpoint setProp (k : string) (v : Value) (o : Obj) : Obj :=
  match o with
  | [] => [(k, v)]
  | (k', v') :: o' =>
      if decide (k' = k) then (k, v) :: o' else (k', v') :: setProp k v o'
  end.

(** [derivePath] is called with the reporter (line 180): it returns the
    route, throws, or reports a panic of its own. *)
Record ResolverHost := mkResolverHost {
  getNode : string → Value;
  validatePathQuery : string → list string → Result unit;
  derivePath : string → Heap → nat → Ending string;
}.

(** What one call of the resolver leaves behind. *)
Record Resolution := mkResolution {
  returned : Ending string;
  heapAfter : Heap;
  lookups : list string;
}.

Section Resolver.
Variable R : ResolverHost.

(** Lines 171-176: the shallow copy and the parent attached to it.  Gives
    the heap, the address of [sourceCopy] and the identifiers passed to
    [getNode]. *)
Definition attachParent (h : Heap) (source : nat)
    : option (Heap * nat * list string) :=
  match h !! source with
  | None => None
  | Some src =>
      let sourceCopy := length h in
      let h1 := h ++ [src] in
      match getProp src "parent" with
      | VString id =>
          Some (alter (setProp "parent" (getNode R id)) sourceCopy h1,
                sourceCopy, [id])
      | _ => Some (h1, sourceCopy, [])
      end
  end.

Definition resolveGatsbyPath (extensions : list string) (h : Heap)
    (source : nat) (filePath : string) : Resolution :=
  match attachParent h source with
  | None => mkResolution (Throw "TypeError") h []
  | Some (h', sourceCopy, ids) =>
      match validatePathQuery R filePath extensions with
      | Throw e => mkResolution (Throw e) h' ids
      | Ok _ => mkResolution (derivePath R filePath h' sourceCopy) h' ids
      end
  end.

End Resolver.

(** The type gets the [gatsbyPath] field, with its resolver, when its
    collection query is registered; otherwise it gets no field. *)
Definition setFieldsOnGraphQLNodeType (R : ResolverHost)
    (knownCollections : gmap string string) (typeName : string)
    (extensions : list string)
    : option (Heap → nat → string → Resolution) :=
  let collectionQuery := "all" +:+ typeName in
  if decide (is_Some (knownCollections !! collectionQuery))
  then Some (resolveGatsbyPath R extensions)
  else None.

(** ** A concrete site, for running the definitions *)

Module Demo.

(** [path.join] and [path.resolve] on a normalised directory and a
    normalised relative path: the two joined by one separator. *)
Definition posixJoin (d p : string) : string := d +:+ "/" +:+ p.

(** The file name up to its first dot. *)
Fixpoint stem (p : string) : string :=
  match p with
  | EmptyString => EmptyString
  | String c rest =>
      if decide (c = "."%char) then EmptyString else String c (stem rest)
  end.

(** A stand-in for [createPath] on flat file names: [about.js] gives
    [/about]. *)
Definition route (p : string) : string := "/" +:+ stem p.

Definition host : Host :=
  mkHost posixJoin posixJoin "/site"
    (λ p, bool_decide (p = "src/pages"))
    (λ pattern dir,
       if decide (pattern = collectionsGlob) then
         ["{Post.slug}.js"; "{Article.slug}.js"]
       else if decide (dir = "src/pages") then ["about.js"; "index.js"]
       else [])
    route.

Definition extensions : list string := [".js"; ".jsx"].

Definition options : Options := mkOptions (Some "src/pages") None [].

Definition dir : string := "/site/src/pages".

Definition aboutPage : Page := mkPage "/about" "/site/src/pages/about.js".
Definition indexPage : Page := mkPage "/index" "/site/src/pages/index.js".
Definition blogPage : Page := mkPage "/blog" "/site/src/pages/blog.js".

(** A page registered for the component [about.js] under another route. *)
Definition aboutUsPage : Page :=
  mkPage "/about-us" "/site/src/pages/about.js".

Definition emptyWorld : World := mkWorld [] [].

Definition session (files : list string) : Session :=
  mkSession dir [] (list_to_set files).

(** Registry actions that always throw. *)
Definition failing : Actions :=
  mkActions (λ _ _ _ ps, (Throw "create failed", ps))
    (λ _ ps, (Throw "delete failed", ps)).

(** Two templates whose queries both select [allPost]. *)
Definition postsQuery : string := "{ allPost { nodes { id } } }".
Definition postsFragmentQuery : string :=
  "{ allPost { ...CollectionPagesQueryFragment } }".

Definition scanHost : ScanHost :=
  mkScanHost
    (λ p, Ok ("/site/" +:+ p))
    (λ p, if decide (p = "/site/src/pages/{Post.slug}.js")
          then Ok (Some postsQuery)
          else if decide (p = "/site/src/pages/{Article.slug}.js")
          then Ok (Some postsFragmentQuery)
          else Ok None)
    (λ q, if decide (q = postsQuery)
          then Ok [OperationDefinition
                     [Field "allPost" [Field "nodes" [Field "id" []]]]]
          else if decide (q = postsFragmentQuery)
          then Ok [OperationDefinition
                     [Field "allPost" [FragmentSpread collectionFragment]]]
          else Throw "Syntax Error").

(** A heap with a post at address 0 whose parent is the identifier
    [file-1], the file node at address 1 (its own parent is the
    identifier [dir-1]) and a directory node at address 2. *)
Definition heap : Heap :=
  [ [("id", VString "post-1"); ("parent", VString "file-1");
     ("slug", VString "hello")];
    [("id", VString "file-1"); ("parent", VString "dir-1");
     ("name", VString "hello.md")];
    [("id", VString "dir-1"); ("name", VString "posts")] ].

Definition nodeOf (id : string) : Value :=
  if decide (id = "file-1") then VRef 1
  else if decide (id = "dir-1") then VRef 2
  else VUndefined.

(** A stand-in for [derivePath]: the [name] of the parent of the record
    it is given. *)
Definition parentName (filePath : string) (h : Heap) (l : nat)
    : Result string :=
  match h !! l with
  | Some o =>
      match getProp o "parent" with
      | VRef q =>
          match h !! q with
          | Some po =>
              match getProp po "name" with
              | VString n => Ok ("/" +:+ n)
              | _ => Throw "no name"
              end
          | None => Throw "dangling"
          end
      | _ => Throw "no parent"
      end
  | None => Throw "dangling"
  end.

Definition resolverHost (g : string → Value) : ResolverHost :=
  mkResolverHost g (λ _ _, Ok tt) (λ filePath h l, parentName filePath h l).

End Demo.

(** ** Reading runs *)


Definition pathOf (ev : Event) : string :=
  match ev with
  | FileAdded p => p
  | FileRemoved p => p
  end.

Definition isAdded (ev : Event) : bool :=
  match ev with
  | FileAdded _ => true
  | FileRemoved _ => false
  end.

(** What one event does to [knownFiles]: [knownFiles.add] (line 100) and
    [knownFiles.delete] (line 123). *)
Definition track (known : gset string) (ev : Event) : gset string :=
  match ev with
  | FileAdded p => {[p]} ∪ known
  | FileRemoved p => known ∖ {[p]}
  end.

(** The template file resolves and has no query string, or an empty one. *)
Definition hasNoQuery (H : Host) (S : ScanHost) (pagesPath f : string)
    : Prop :=
  ∃ absolutePath q,
    requireResolve S (join H pagesPath f) = Ok absolutePath ∧
    collectionExtractQueryString S absolutePath = Ok q ∧
    falsy q = true.

(** ** More concrete cases *)

Module Cases.

(** Registry actions whose [createPage] throws for [index.js] only, after
    it has registered a page of its own. *)
Definition picky : Actions :=
  mkActions
    (λ file dir ign ps,
       if decide (file = "index.js")
       then (Throw "cannot create index", ps ++ [Demo.aboutUsPage])
       else specCreatePage Demo.host file dir ign ps)
    specDeletePage.




(** A validator that rejects every path. *)
Definition rejecting : ResolverHost :=
  mkResolverHost Demo.nodeOf (λ _ _, Throw "invalid path")
    (λ filePath h l, Demo.parentName filePath h l).


End Cases.

(** * Properties *)

(** ** Running the monad *)

Lemma bind_run {A B} (m : M A) (k : A → M B) (w : World) :
  (m ≫= k) w =
  match m w with
  | (Ok a, w') => k a w'
  | (Throw e, w') => (Throw e, w')
  end.
Proof. reflexivity. Qed.

Lemma session_eta (s : Session) :
  mkSession (pagesDirectory s) (ignore s) (knownFiles s) = s.
Proof. by destruct s. Qed.

Section EngineFacts.
Variable H : Host.

Lemma elem_of_register pg q ps : q ∈ register pg ps ↔ q ∈ ps ∨ q = pg.
Proof.
  unfold register. case_decide; set_solver.
Qed.

Lemma callCreatePage_spec file dir ign w :
  callCreatePage (specActions H) file dir ign w =
  (Ok tt, mkWorld (register (pageOf H dir file) (pages w))
                  (log w ++ [CreatePageCall file dir])).
Proof. reflexivity. Qed.

Lemma callDeletePage_spec pg w :
  callDeletePage (specActions H) pg w =
  (Ok tt, mkWorld (filter (λ q, q ≠ pg) (pages w))
                  (log w ++ [DeletePageCall pg])).
Proof. reflexivity. Qed.

(** The start-up loop never throws and registers the page of each file. *)
Lemma forEach_create dir ign files w :
  ∃ w', forEach (λ f, callCreatePage (specActions H) f dir ign) files w
        = (Ok tt, w') ∧
        ∀ q, q ∈ pages w' ↔ q ∈ pages w ∨ ∃ f, f ∈ files ∧ q = pageOf H dir f.
Proof.
  revert w. induction files as [|f files IH]; intros w.
  - exists w. split; [done|]. set_solver.
  - cbn [forEach]. rewrite bind_run, callCreatePage_spec.
    destruct (IH (mkWorld (register (pageOf H dir f) (pages w))
                    (log w ++ [CreatePageCall f dir]))) as (w' & Hrun & Hw').
    exists w'. split; [done|].
    intros q. rewrite Hw'. cbn [pages]. rewrite elem_of_register.
    set_solver.
Qed.

(** The loop of the [removed] handler under the registry of the spec:
    it never throws; if some listed page that is still registered has the
    component, the page (route of the removed path, component) is gone
    from the store, otherwise nothing at all happened. *)
Lemma forEach_removedVisit p cp l w :
  ∃ w', forEach (removedVisit H (specActions H) p cp) l w = (Ok tt, w') ∧
    ((∃ pg, pg ∈ l ∧ pg ∈ pages w ∧ component pg = cp) →
       pages w' = filter (λ q, q ≠ mkPage (createPath H p) cp) (pages w)) ∧
    ((∀ pg, pg ∈ l → pg ∈ pages w → component pg ≠ cp) → w' = w).
Proof.
  revert w. induction l as [|x l IH]; intros w.
  - exists w. split; [done|]. split; [|done].
    intros (pg & Hin & _). by apply elem_of_nil in Hin.
  - cbn [forEach]. rewrite bind_run. unfold removedVisit at 1.
    rewrite bind_run. cbn [getPages].
    destruct (decide (x ∈ pages w)) as [Hx|Hx];
      [destruct (decide (component x = cp)) as [Hc|Hc]|].
    + rewrite callDeletePage_spec.
      set (w1 := mkWorld _ _).
      destruct (IH w1) as (w' & Hrun & Hyes & Hno).
      exists w'. split; [done|]. split.
      * intros _.
        destruct (decide (Exists (λ pg, pg ∈ pages w1 ∧ component pg = cp) l))
          as [Hex|Hnex]; rewrite Exists_exists in *.
        -- rewrite (Hyes Hex). subst w1. cbn [pages].
           by rewrite list_filter_filter_l.
        -- rewrite Hno; [done|]. intros pg ? ? ?. apply Hnex. eauto.
      * intros Hall. exfalso. apply (Hall x); [left|done..].
    + change ((mret tt : M unit) w) with (Ok tt, w).
      destruct (IH w) as (w' & Hrun & Hyes & Hno).
      exists w'. split; [done|]. split.
      * intros (pg & Hin & Hpg & Hcp). apply Hyes.
        apply elem_of_cons in Hin as [->|Hin]; [done|eauto].
      * intros Hall. apply Hno. intros pg ?. apply Hall. by right.
    + change ((mret tt : M unit) w) with (Ok tt, w).
      destruct (IH w) as (w' & Hrun & Hyes & Hno).
      exists w'. split; [done|]. split.
      * intros (pg & Hin & Hpg & Hcp). apply Hyes.
        apply elem_of_cons in Hin as [->|Hin]; [done|eauto].
      * intros Hall. apply Hno. intros pg ?. apply Hall. by right.
Qed.

End EngineFacts.

(** Settle a decidable closed proposition by evaluating its decision. *)
Ltac by_compute := apply (bool_decide_unpack _); vm_compute; exact I.

(** ** The [added] handler *)

Lemma onAdded_known A s p w :
  p ∈ knownFiles s → onAdded A s p w = Watching s w.
Proof.
  intros Hin. unfold onAdded, addedBody. by rewrite decide_True.
Qed.

Lemma onAdded_new H s p w :
  p ∉ knownFiles s →
  onAdded (specActions H) s p w =
  Watching (mkSession (pagesDirectory s) (ignore s) ({[p]} ∪ knownFiles s))
    (mkWorld (register (pageOf H (pagesDirectory s) p) (pages w))
       (log w ++ [CreatePageCall p (pagesDirectory s)])).
Proof.
  intros Hin. unfold onAdded, addedBody. by rewrite decide_False.
Qed.

(** Repeating an [added] event changes nothing after the first one, whatever
    the registry actions do. *)
Lemma added_again H A s p w n :
  handleAll H A (replicate (S n) (FileAdded p)) s w = onAdded A s p w.
Proof.
  cbn [replicate handleAll handle].
  destruct (onAdded A s p w) as [id c w'|s' w'] eqn:Hrun; [done|].
  assert (p ∈ knownFiles s') as Hin.
  { unfold onAdded, addedBody in Hrun.
    destruct (decide (p ∈ knownFiles s)) as [Hk|Hk].
    - by injection Hrun as <- <-.
    - rewrite bind_run in Hrun.
      destruct (callCreatePage A p (pagesDirectory s) (ignore s) w)
        as [[[]|e] w1]; [|done].
      injection Hrun as <- <-. cbn. set_solver. }
  clear Hrun. induction n as [|n IH]; cbn [replicate handleAll handle].
  - done.
  - by rewrite (onAdded_known A s' p w' Hin).
Qed.

(** C2. An [added] event for a path already in [knownFiles] changes nothing:
    no call is made, the registry and [knownFiles] stay as they are.  For a
    path not in [knownFiles] the handler creates the page and inserts the
    path; if that page was not registered before, the registry is the old
    one followed by that one page.  Any number of repeated [added] events
    for the path leaves exactly what the first one left, so exactly one
    page was created. *)
Theorem added_creates_once (H : Host) (s : Session) (p : string) (w : World) :
  let A := specActions H in
  let dir := pagesDirectory s in
  (p ∈ knownFiles s → onAdded A s p w = Watching s w) ∧
  (p ∉ knownFiles s →
     onAdded A s p w =
     Watching (mkSession dir (ignore s) ({[p]} ∪ knownFiles s))
       (mkWorld (register (pageOf H dir p) (pages w))
          (log w ++ [CreatePageCall p dir]))) ∧
  (p ∉ knownFiles s → pageOf H dir p ∉ pages w →
     ∀ n, ∃ s' w',
       handleAll H A (replicate (S n) (FileAdded p)) s w = Watching s' w' ∧
       knownFiles s' = {[p]} ∪ knownFiles s ∧
       pages w' = pages w ++ [pageOf H dir p] ∧
       log w' = log w ++ [CreatePageCall p dir]).
Proof.
  intros A dir. split; [apply onAdded_known|].
  split; [apply onAdded_new|].
  intros Hk Hpg n. rewrite added_again. subst A. rewrite onAdded_new by done.
  eexists _, _. split; [done|]. cbn. unfold register.
  by rewrite decide_False.
Qed.

Lemma added_creates_once_witness :
  ∃ s' w',
    handleAll Demo.host (specActions Demo.host)
      (replicate 3 (FileAdded "blog.js"))
      (Demo.session ["about.js"]) (mkWorld [Demo.aboutPage] []) =
    Watching s' w' ∧
    knownFiles s' = {[ "blog.js" ]} ∪ knownFiles (Demo.session ["about.js"]) ∧
    pages w' = [Demo.aboutPage] ++ [Demo.blogPage] ∧
    log w' = [] ++ [CreatePageCall "blog.js" Demo.dir].
Proof.
  apply (added_creates_once Demo.host (Demo.session ["about.js"]) "blog.js"
           (mkWorld [Demo.aboutPage] [])).
  - by_compute.
  - by_compute.
Defined.

(** ** The [removed] handler *)

(** With no registered page of the component in the list, the loop makes no
    call at all, whatever the registry actions are. *)
Lemma forEach_removedVisit_none H A p cp l w :
  (∀ pg, pg ∈ l → pg ∈ pages w → component pg ≠ cp) →
  forEach (removedVisit H A p cp) l w = (Ok tt, w).
Proof.
  induction l as [|x l IH]; intros Hall; [done|].
  cbn [forEach]. rewrite bind_run. unfold removedVisit at 1.
  rewrite bind_run. cbn [getPages].
  destruct (decide (x ∈ pages w)) as [Hx|Hx].
  - rewrite decide_False by (apply Hall; [left|done]).
    apply IH. intros pg ?. apply Hall. by right.
  - apply IH. intros pg ?. apply Hall. by right.
Qed.

Lemma onRemoved_spec H s p w :
  let cp := join H (pagesDirectory s) p in
  ∃ w',
    onRemoved H (specActions H) s p w =
    Watching (mkSession (pagesDirectory s) (ignore s) (knownFiles s ∖ {[p]}))
      w' ∧
    ((∃ pg, pg ∈ pages w ∧ component pg = cp) →
       pages w' = filter (λ q, q ≠ pageOf H (pagesDirectory s) p) (pages w)) ∧
    ((∀ pg, pg ∈ pages w → component pg ≠ cp) → w' = w).
Proof.
  intros cp. unfold onRemoved, removedBody. rewrite bind_run. cbn [getPages].
  rewrite bind_run. fold cp.
  destruct (forEach_removedVisit H p cp (pages w) w) as (w' & -> & Hyes & Hno).
  exists w'. split; [done|]. split.
  - intros (pg & Hin & Hc). apply Hyes. eauto.
  - intros Hall. apply Hno. eauto.
Qed.

(** C3. The [removed] handler never ends in a panic and always takes the
    path out of [knownFiles], whether or not a page of that component was
    registered.  For a path that is not tracked and has no registered page
    the handler does nothing at all: no registry action is called, so this
    holds whatever those actions do. *)
Theorem removed_never_throws (H : Host) (s : Session) (p : string)
    (w : World) :
  (∃ w', onRemoved H (specActions H) s p w =
         Watching
           (mkSession (pagesDirectory s) (ignore s) (knownFiles s ∖ {[p]}))
           w') ∧
  (∀ A : Actions,
     p ∉ knownFiles s →
     (∀ pg, pg ∈ pages w → component pg ≠ join H (pagesDirectory s) p) →
     onRemoved H A s p w = Watching s w).
Proof.
  split.
  - destruct (onRemoved_spec H s p w) as (w' & Hrun & _). eauto.
  - intros A Hk Hall. unfold onRemoved, removedBody.
    rewrite bind_run. cbn [getPages]. rewrite bind_run.
    rewrite forEach_removedVisit_none by eauto.
    change ((mret ?x : M Session) w) with (Ok x, w).
    replace (knownFiles s ∖ {[p]}) with (knownFiles s) by set_solver.
    by rewrite session_eta.
Qed.

Lemma removed_never_throws_witness :
  onRemoved Demo.host Demo.failing (Demo.session ["about.js"]) "ghost.js"
    (mkWorld [Demo.aboutPage] []) =
  Watching (Demo.session ["about.js"]) (mkWorld [Demo.aboutPage] []).
Proof.
  apply (removed_never_throws Demo.host (Demo.session ["about.js"]) "ghost.js"
           (mkWorld [Demo.aboutPage] [])).
  - by_compute.
  - intros pg Hin. apply list_elem_of_singleton in Hin. subst pg.
    by_compute.
Defined.

(** The handler deletes by the route of the removed path, not by the route
    of the page it matched: a registered page of the component under any
    other route survives the [removed] event. *)
Lemma removed_misses_other_routes H s p w pg :
  pg ∈ pages w →
  component pg = join H (pagesDirectory s) p →
  path pg ≠ createPath H p →
  ∃ s' w', onRemoved H (specActions H) s p w = Watching s' w' ∧ pg ∈ pages w'.
Proof.
  intros Hin Hc Hroute.
  destruct (onRemoved_spec H s p w) as (w' & Hrun & Hyes & _).
  eexists _, w'. split; [exact Hrun|].
  rewrite Hyes by eauto. apply list_elem_of_filter. split; [|done].
  intros ->. by apply Hroute.
Qed.

(** C4, at a registry in which the component [about.js] has a second page
    under another route: the [removed] event calls [deletePage] twice, both
    times for the route of the removed path, and the second page of the
    component stays registered. *)
Theorem removed_keeps_page_of_component :
  onRemoved Demo.host (specActions Demo.host) (Demo.session ["about.js"])
    "about.js"
    (mkWorld [Demo.aboutPage; Demo.aboutUsPage; Demo.indexPage] []) =
  Watching (Demo.session [])
    (mkWorld [Demo.aboutUsPage; Demo.indexPage]
       [DeletePageCall Demo.aboutPage; DeletePageCall Demo.aboutPage])
  ∧ component Demo.aboutUsPage = join Demo.host Demo.dir "about.js".
Proof. split; vm_compute; reflexivity. Qed.

(** ** The configuration checks *)

(** C6, as the claim states it, fails: with [pathCheck] switched off a path
    that does not exist is globbed and watched, and there is no panic. *)
Lemma unchecked_path_is_scanned :
  existsSync Demo.host "nowhere" = false ∧
  createPagesStatefully Demo.host (specActions Demo.host) Demo.extensions
    (mkOptions (Some "nowhere") (Some false) []) Demo.emptyWorld =
  Watching (mkSession "/site/nowhere" [] ∅)
    (mkWorld []
       [GlobCall "**/*.{js,jsx}" "nowhere";
        WatchCall "nowhere" "**/*.{js,jsx}"]).
Proof. split; vm_compute; reflexivity. Qed.

(** C6, amended.  If the [path] option is missing (or empty), or if
    [pathCheck] is on (the default) and the path does not exist,
    [createPagesStatefully] panics with id 1 and the world is the one it
    was given: no glob, no page created, no watcher. *)
Theorem config_panics_before_scan (H : Host) (A : Actions)
    (extensions : list string) (o : Options) (w : World) :
  (falsy (opt_path o) = true →
     createPagesStatefully H A extensions o w =
     Panicked "1" MissingPathOption w) ∧
  (∀ p, opt_path o = Some p → p ≠ "" →
     default true (opt_pathCheck o) = true →
     existsSync H p = false →
     createPagesStatefully H A extensions o w =
     Panicked "1" (PathDoesNotExist p) w).
Proof.
  unfold createPagesStatefully. split.
  - by intros ->.
  - intros p Hp Hne Hcheck Hex. rewrite Hp. simpl.
    rewrite decide_False by done. simpl in Hcheck. rewrite Hcheck, Hex. done.
Qed.

Lemma config_panics_before_scan_witness :
  createPagesStatefully Demo.host Demo.failing Demo.extensions
    (mkOptions (Some "nowhere") None []) Demo.emptyWorld =
  Panicked "1" (PathDoesNotExist "nowhere") Demo.emptyWorld.
Proof.
  apply (config_panics_before_scan Demo.host Demo.failing Demo.extensions
           (mkOptions (Some "nowhere") None []) Demo.emptyWorld).
  - reflexivity.
  - by_compute.
  - reflexivity.
  - reflexivity.
Defined.

(** ** The invariant of the engine *)

Section Invariant.
Variable H : Host.

(** Two relative paths that join to the same absolute path are the same
    path. *)
Hypothesis join_inj : ∀ d p q, join H d p = join H d q → p = q.




End Invariant.




(** ** The collection registry *)

Lemma scanFile_skips H S pagesPath f known absolutePath q :
  requireResolve S (join H pagesPath f) = Ok absolutePath →
  collectionExtractQueryString S absolutePath = Ok q →
  falsy q = true →
  scanFile H S pagesPath f known = Ok known.
Proof.
  intros Hres Hq Hfalsy. unfold scanFile. rewrite Hres. cbn.
  rewrite Hq. cbn. by rewrite Hfalsy.
Qed.

Lemma scanFile_registers H S pagesPath f q ast name known :
  yieldsQuery H S pagesPath f q ast name →
  scanFile H S pagesPath f known = Ok (<[name := f]> known).
Proof.
  intros (absolutePath & Hres & Hq & Hne & Hparse & Hname).
  unfold scanFile. rewrite Hres. cbn. rewrite Hq. cbn.
  rewrite decide_False by done. rewrite Hparse. cbn. by rewrite Hname.
Qed.



Lemma scanFiles_app H S pagesPath l1 l2 known :
  scanFiles H S pagesPath (l1 ++ l2) known =
  match scanFiles H S pagesPath l1 known with
  | (Settled (Ok _), known1) => scanFiles H S pagesPath l2 known1
  | (Settled (Throw e), known1) => (Settled (Throw e), known1)
  | (Exited id, known1) => (Exited id, known1)
  end.
Proof.
  revert known. induction l1 as [|f l1 IH]; intros known; [done|].
  cbn [app scanFiles].
  by destruct (scanFile H S pagesPath f known) as [[?|?]|?].
Qed.



(** C8. Two template files that yield the same plural type name are both
    accepted: the scan ends without an error, the name maps to the file
    registered last, and no other entry of the registry changes. *)
Theorem reregistration_overwrites (H : Host) (S : ScanHost)
    (pagesPath f1 f2 name : string) (known : gmap string string) :
  registersAs H S pagesPath f1 name →
  registersAs H S pagesPath f2 name →
  ∃ known',
    scanFiles H S pagesPath [f1; f2] known = (Ok tt, known') ∧
    known' !! name = Some f2 ∧
    (∀ k, k ≠ name → known' !! k = known !! k).
Proof.
  intros (q1 & ast1 & H1) (q2 & ast2 & H2).
  exists (<[name := f2]> (<[name := f1]> known)).
  cbn [scanFiles].
  rewrite (scanFile_registers _ _ _ _ _ _ _ _ H1).
  rewrite (scanFile_registers _ _ _ _ _ _ _ _ H2).
  split; [done|]. split.
  - apply lookup_insert_eq.
  - intros k Hk. by rewrite !lookup_insert_ne.
Qed.

Lemma reregistration_overwrites_witness :
  ∃ known',
    scanFiles Demo.host Demo.scanHost "src/pages"
      ["{Post.slug}.js"; "{Article.slug}.js"] ∅ = (Ok tt, known') ∧
    known' !! "allPost" = Some "{Article.slug}.js" ∧
    (∀ k, k ≠ "allPost" → known' !! k = (∅ : gmap string string) !! k).
Proof.
  apply (reregistration_overwrites Demo.host Demo.scanHost "src/pages"
           "{Post.slug}.js" "{Article.slug}.js" "allPost" ∅).
  - exists Demo.postsQuery,
      [OperationDefinition [Field "allPost" [Field "nodes" [Field "id" []]]]],
      "/site/src/pages/{Post.slug}.js".
    repeat split; try reflexivity. by_compute.
  - exists Demo.postsFragmentQuery,
      [OperationDefinition
         [Field "allPost" [FragmentSpread collectionFragment]]],
      "/site/src/pages/{Article.slug}.js".
    repeat split; try reflexivity. by_compute.
Defined.

(** ** The [gatsbyPath] resolver *)

Lemma getProp_setProp_eq k v o : getProp (setProp k v o) k = v.
Proof.
  induction o as [|[k' v'] o IH]; cbn.
  - by rewrite decide_True.
  - destruct (decide (k' = k)) as [->|Hne]; cbn.
    + by rewrite decide_True.
    + by rewrite decide_False.
Qed.

Lemma getProp_setProp_ne k k' v o :
  k' ≠ k → getProp (setProp k v o) k' = getProp o k'.
Proof.
  intros Hne. induction o as [|[k0 v0] o IH]; cbn.
  - by rewrite decide_False.
  - destruct (decide (k0 = k)) as [->|Hk]; cbn.
    + rewrite !decide_False; done.
    + destruct (decide (k0 = k')); done.
Qed.

Lemma alter_last {A} (f : A → A) (l : list A) (x : A) :
  alter f (length l) (l ++ [x]) = l ++ [f x].
Proof.
  induction l as [|y l IH]; [done|]. cbn. by f_equal.
Qed.

Lemma attachParent_string R h source src id :
  h !! source = Some src →
  getProp src "parent" = VString id →
  attachParent R h source =
  Some (h ++ [setProp "parent" (getNode R id) src], length h, [id]).
Proof.
  intros Hsrc Hparent. unfold attachParent.
  by rewrite Hsrc, Hparent, alter_last.
Qed.

Lemma attachParent_other R h source src :
  h !! source = Some src →
  (∀ id, getProp src "parent" ≠ VString id) →
  attachParent R h source = Some (h ++ [src], length h, []).
Proof.
  intros Hsrc Hparent. unfold attachParent. rewrite Hsrc.
  destruct (getProp src "parent") eqn:Hp; try done.
  by destruct (Hparent s).
Qed.

Lemma attachParent_extends R h source h' c ids :
  attachParent R h source = Some (h', c, ids) →
  ∃ root, h' = h ++ [root] ∧ c = length h.
Proof.
  unfold attachParent. destruct (h !! source) as [src|]; [|done].
  destruct (getProp src "parent"); intros [= <- <- <-];
    rewrite ?alter_last; eauto.
Qed.

(** C7. The resolver follows the parent for one hop and only when it is a
    string: if [source.parent] is the string [id], the record handed to
    [derivePath] is the source with [parent] replaced by [getNode id] (all
    other fields as they were) and [getNode] was called once, with [id];
    otherwise the record handed on has exactly the fields of the source and
    [getNode] was not called.  In both cases [derivePath] gets that
    record. *)
Theorem parent_followed_one_hop (R : ResolverHost) (extensions : list string)
    (h : Heap) (source : nat) (src : Obj) (filePath : string) :
  h !! source = Some src →
  ∃ root,
    attachParent R h source =
      Some (h ++ [root], length h, lookups
              (resolveGatsbyPath R extensions h source filePath)) ∧
    (validatePathQuery R filePath extensions = Ok tt →
       returned (resolveGatsbyPath R extensions h source filePath) =
       derivePath R filePath (h ++ [root]) (length h)) ∧
    (∀ id, getProp src "parent" = VString id →
       root = setProp "parent" (getNode R id) src ∧
       getProp root "parent" = getNode R id ∧
       (∀ k, k ≠ "parent" → getProp root k = getProp src k) ∧
       lookups (resolveGatsbyPath R extensions h source filePath) = [id]) ∧
    ((∀ id, getProp src "parent" ≠ VString id) →
       root = src ∧
       lookups (resolveGatsbyPath R extensions h source filePath) = []).
Proof.
  intros Hsrc. unfold resolveGatsbyPath.
  destruct (getProp src "parent") as [| | | |id|] eqn:Hparent.
  all: try (rewrite (attachParent_other R h source src Hsrc)
              by (intros id; rewrite Hparent; done);
            exists src; split;
            [by destruct (validatePathQuery R filePath extensions)|];
            split; [by intros ->|]; split; [done|];
            intros _; split; [done|];
            by destruct (validatePathQuery R filePath extensions)).
  rewrite (attachParent_string R h source src id Hsrc Hparent).
  exists (setProp "parent" (getNode R id) src). split.
  { by destruct (validatePathQuery R filePath extensions). }
  split; [by intros ->|]. split.
  - intros id' [= <-]. split; [done|]. split; [apply getProp_setProp_eq|].
    split; [intros k Hk; by apply getProp_setProp_ne|].
    by destruct (validatePathQuery R filePath extensions).
  - intros Hno. by destruct (Hno id).
Qed.

Lemma parent_followed_one_hop_witness :
  lookups (resolveGatsbyPath (Demo.resolverHost Demo.nodeOf) Demo.extensions
             Demo.heap 0 "{Post.parent__name}.js") = ["file-1"] ∧
  attachParent (Demo.resolverHost Demo.nodeOf) Demo.heap 0 =
  Some (Demo.heap ++
          [[("id", VString "post-1"); ("parent", VRef 1);
            ("slug", VString "hello")]],
        3, ["file-1"]).
Proof.
  destruct (parent_followed_one_hop (Demo.resolverHost Demo.nodeOf)
              Demo.extensions Demo.heap 0
              [("id", VString "post-1"); ("parent", VString "file-1");
               ("slug", VString "hello")]
              "{Post.parent__name}.js" eq_refl)
    as (root & Hattach & _ & Hstring & _).
  destruct (Hstring "file-1" eq_refl) as (Hroot & _ & _ & Hlookups).
  split; [exact Hlookups|].
  rewrite Hattach, Hlookups, Hroot. reflexivity.
Defined.

(** X20. The resolver consults [getNode] at the identifier in
    [source.parent] and nowhere else: replacing [getNode] by any function
    that agrees with it there changes nothing in what the call returns,
    copies or looks up. *)
Theorem getNode_consulted_at_parent_only (g1 g2 : string → Value)
    (validate : string → list string → Result unit)
    (derive : string → Heap → nat → Ending string)
    (extensions : list string) (h : Heap) (source : nat)
    (filePath : string) :
  (∀ src id, h !! source = Some src → getProp src "parent" = VString id →
     g1 id = g2 id) →
  resolveGatsbyPath (mkResolverHost g1 validate derive) extensions h source
    filePath =
  resolveGatsbyPath (mkResolverHost g2 validate derive) extensions h source
    filePath.
Proof.
  intros Hagree. unfold resolveGatsbyPath, attachParent.
  destruct (h !! source) as [src|] eqn:Hsrc; [|done].
  destruct (getProp src "parent") as [| | | |id|] eqn:Hparent; try done.
  cbn [getNode]. by rewrite (Hagree src id).
Qed.

Lemma getNode_consulted_at_parent_only_witness :
  resolveGatsbyPath
    (mkResolverHost Demo.nodeOf (λ _ _, Ok tt)
       (λ filePath h l, Demo.parentName filePath h l))
    Demo.extensions Demo.heap 0 "{Post.parent__name}.js" =
  resolveGatsbyPath
    (mkResolverHost (λ id, if decide (id = "file-1") then VRef 1 else VNull)
       (λ _ _, Ok tt) (λ filePath h l, Demo.parentName filePath h l))
    Demo.extensions Demo.heap 0 "{Post.parent__name}.js".
Proof.
  apply (getNode_consulted_at_parent_only Demo.nodeOf
           (λ id, if decide (id = "file-1") then VRef 1 else VNull)).
  intros src id Hsrc Hparent.
  injection Hsrc as <-. injection Hparent as <-. reflexivity.
Defined.

(** C10. The resolver leaves every object of the heap as it was, the source
    among them: the heap after the call is the heap before it followed by
    the copy, so [source.parent] is what it was even when the copy's parent
    was replaced. *)
Theorem resolve_leaves_source (R : ResolverHost) (extensions : list string)
    (h : Heap) (source : nat) (src : Obj) (filePath : string) :
  h !! source = Some src →
  let h' := heapAfter (resolveGatsbyPath R extensions h source filePath) in
  h' !! source = Some src ∧
  (∀ l o, h !! l = Some o → h' !! l = Some o) ∧
  (∃ root, h' = h ++ [root]).
Proof.
  intros Hsrc h'.
  assert (∃ root, h' = h ++ [root]) as [root Hroot].
  { subst h'. unfold resolveGatsbyPath.
    destruct (attachParent R h source) as [[[h1 c] ids]|] eqn:Hattach.
    - apply attachParent_extends in Hattach as (root & -> & ->).
      exists root. by destruct (validatePathQuery R filePath extensions).
    - unfold attachParent in Hattach. rewrite Hsrc in Hattach.
      by destruct (getProp src "parent"). }
  assert (∀ l o, h !! l = Some o → h' !! l = Some o) as Hkeep.
  { intros l o Hl. rewrite Hroot. by apply lookup_app_l_Some. }
  eauto.
Qed.

Lemma resolve_leaves_source_witness :
  let h' := heapAfter (resolveGatsbyPath (Demo.resolverHost Demo.nodeOf)
                         Demo.extensions Demo.heap 0 "{Post.parent__name}.js")
  in
  h' !! 0 = Some [("id", VString "post-1"); ("parent", VString "file-1");
                  ("slug", VString "hello")] ∧
  (∀ l o, Demo.heap !! l = Some o → h' !! l = Some o) ∧
  (∃ root, h' = Demo.heap ++ [root]).
Proof.
  apply (resolve_leaves_source (Demo.resolverHost Demo.nodeOf)
           Demo.extensions Demo.heap 0).
  reflexivity.
Defined.

(** * Further properties *)

(** ** The start-up scan *)

Lemma callCreatePage_run A file dir ign w :
  callCreatePage A file dir ign w =
  let (r, ps) := createPage A file dir ign (pages w) in
  (r, mkWorld ps (log w ++ [CreatePageCall file dir])).
Proof.
  unfold callCreatePage. rewrite bind_run. cbn [tell]. unfold onStore.
  cbn [pages log]. by destruct (createPage A file dir ign (pages w)).
Qed.


(** The calls of the start-up loop: one per file, in order, up to and
    including the first one that throws. *)
Lemma forEach_create_trace A dir ign files w r w' :
  forEach (λ f, callCreatePage A f dir ign) files w = (r, w') →
  (r = Ok tt ∧
   log w' = log w ++ map (λ f, CreatePageCall f dir) files) ∨
  (∃ e done f rest,
     r = Throw e ∧ files = done ++ f :: rest ∧
     log w' = log w ++ map (λ f, CreatePageCall f dir) (done ++ [f])).
Proof.
  revert w. induction files as [|f files IH]; intros w; cbn [forEach].
  - intros [= <- <-]. left. by rewrite app_nil_r.
  - rewrite bind_run, callCreatePage_run.
    destruct (createPage A f dir ign (pages w)) as [[[]|e] ps].
    + intros Hrun. apply IH in Hrun as [[-> Hlog]|Hfail]; cbn [log] in *.
      * left. split; [done|]. by rewrite Hlog, <- app_assoc.
      * destruct Hfail as (e & done & g & rest & -> & -> & Hlog).
        right. exists e, (f :: done), g, rest.
        split; [done|]. split; [done|].
        by rewrite Hlog, <- app_assoc.
    + intros [= <- <-]. right. exists e, [], f, files. by cbn.
Qed.

(** X1. A start-up that reaches the watching state asked the glob once,
    called [createPage] once for every globbed file, in glob order, and
    started the watcher last; [knownFiles] is the set of the globbed files
    and the pages directory is the path resolved against the working
    directory. *)
Theorem startup_trace (H : Host) (A : Actions) (extensions : list string)
    (o : Options) (w : World) (s : Session) (w' : World) :
  createPagesStatefully H A extensions o w = Watching s w' →
  ∃ pagesPath,
    opt_path o = Some pagesPath ∧ pagesPath ≠ "" ∧
    s = mkSession (resolve H (cwd H) pagesPath) (opt_ignore o)
          (list_to_set (glob H (pagesGlobOf extensions) pagesPath)) ∧
    log w' =
      log w ++
      [GlobCall (pagesGlobOf extensions) pagesPath] ++
      map (λ f, CreatePageCall f (resolve H (cwd H) pagesPath))
        (glob H (pagesGlobOf extensions) pagesPath) ++
      [WatchCall pagesPath (pagesGlobOf extensions)].
Proof.
  unfold createPagesStatefully.
  destruct (opt_path o) as [pagesPath|]; [|done]. cbn [falsy].
  destruct (decide (pagesPath = "")) as [|Hne]; [done|].
  destruct (_ && _); [done|]. simpl.
  unfold initialScan. rewrite bind_run. cbn [tell]. rewrite bind_run.
  destruct (forEach _ _ _) as [r w1] eqn:Hloop.
  apply forEach_create_trace in Hloop as [[-> Hlog]|Hfail]; cbn [log] in *.
  - rewrite bind_run. cbn [tell].
    change ((mret ?x : M Session) ?v) with (Ok x, v).
    intros [= <- <-]. exists pagesPath. repeat split; try done.
    cbn [log]. rewrite Hlog. by rewrite <- !app_assoc.
  - by destruct Hfail as (e & done & f & rest & -> & _).
Qed.

Lemma startup_trace_witness :
  ∃ pagesPath,
    opt_path Demo.options = Some pagesPath ∧ pagesPath ≠ "" ∧
    Demo.session ["about.js"; "index.js"] =
      mkSession (resolve Demo.host (cwd Demo.host) pagesPath)
        (opt_ignore Demo.options)
        (list_to_set (glob Demo.host (pagesGlobOf Demo.extensions) pagesPath))
    ∧
    log (mkWorld [Demo.aboutPage; Demo.indexPage]
           [GlobCall "**/*.{js,jsx}" "src/pages";
            CreatePageCall "about.js" Demo.dir;
            CreatePageCall "index.js" Demo.dir;
            WatchCall "src/pages" "**/*.{js,jsx}"]) =
      log Demo.emptyWorld ++
      [GlobCall (pagesGlobOf Demo.extensions) pagesPath] ++
      map (λ f, CreatePageCall f (resolve Demo.host (cwd Demo.host) pagesPath))
        (glob Demo.host (pagesGlobOf Demo.extensions) pagesPath) ++
      [WatchCall pagesPath (pagesGlobOf Demo.extensions)].
Proof.
  apply (startup_trace Demo.host (specActions Demo.host) Demo.extensions
           Demo.options Demo.emptyWorld).
  vm_compute. reflexivity.
Defined.

Lemma forEach_app {B} (f : B → M unit) (l1 l2 : list B) (w : World) :
  forEach f (l1 ++ l2) w =
  match forEach f l1 w with
  | (Ok _, w1) => forEach f l2 w1
  | (Throw e, w1) => (Throw e, w1)
  end.
Proof.
  revert w. induction l1 as [|x l1 IH]; intros w; cbn [app forEach].
  - done.
  - rewrite !bind_run. destruct (f x w) as [[[]|e] w1]; [apply IH|done].
Qed.

(** X2. When [createPage] returns for the first globbed files and throws
    for the next one, the run panics with id 1 and the message of that
    exception, in the registry that call left; the files after the failing
    one are never handed to [createPage] and the watcher is never
    started. *)
Theorem startup_stops_at_first_failure (H : Host) (A : Actions)
    (extensions : list string) (o : Options) (w : World)
    (pagesPath : string) (done : list string) (f : string)
    (rest : list string) (w1 : World) (e : string) (ps : list Page) :
  opt_path o = Some pagesPath → pagesPath ≠ "" →
  (default true (opt_pathCheck o) = false ∨ existsSync H pagesPath = true) →
  glob H (pagesGlobOf extensions) pagesPath = done ++ f :: rest →
  forEach
    (λ g, callCreatePage A g (resolve H (cwd H) pagesPath) (opt_ignore o))
    done
    (mkWorld (pages w)
       (log w ++ [GlobCall (pagesGlobOf extensions) pagesPath])) =
    (Ok tt, w1) →
  createPage A f (resolve H (cwd H) pagesPath) (opt_ignore o) (pages w1) =
    (Throw e, ps) →
  createPagesStatefully H A extensions o w =
  Panicked "1" (SourceMessage e)
    (mkWorld ps
       (log w ++
        [GlobCall (pagesGlobOf extensions) pagesPath] ++
        map (λ g, CreatePageCall g (resolve H (cwd H) pagesPath))
          (done ++ [f]))).
Proof.
  intros Hp Hne Hcheck Hglob Hdone Hthrow.
  unfold createPagesStatefully. rewrite Hp. cbn [falsy].
  rewrite decide_False by done. simpl.
  replace (_ && _) with false
    by (simpl in Hcheck; destruct Hcheck as [-> | ->]; [done|];
        by rewrite andb_false_r).
  unfold initialScan. rewrite bind_run. cbn [tell]. rewrite bind_run.
  rewrite Hglob, forEach_app, Hdone.
  cbn [forEach]. rewrite bind_run, callCreatePage_run, Hthrow.
  apply forEach_create_trace in Hdone as [[_ Hlog]|Hfail].
  - cbn [log] in Hlog. rewrite Hlog, map_app. cbn [map].
    by rewrite <- !app_assoc.
  - by destruct Hfail as (? & ? & ? & ? & ? & _).
Qed.

Lemma startup_stops_at_first_failure_witness :
  createPagesStatefully Demo.host Cases.picky [".js"]
    (mkOptions (Some "src/pages") None ["ignored"]) Demo.emptyWorld =
  Panicked "1" (SourceMessage "cannot create index")
    (mkWorld ([Demo.aboutPage] ++ [Demo.aboutUsPage])
       (log Demo.emptyWorld ++
        [GlobCall (pagesGlobOf [".js"]) "src/pages"] ++
        map (λ g, CreatePageCall g
                    (resolve Demo.host (cwd Demo.host) "src/pages"))
          (["about.js"] ++ ["index.js"]))).
Proof.
  apply (startup_stops_at_first_failure Demo.host Cases.picky [".js"]
           (mkOptions (Some "src/pages") None ["ignored"]) Demo.emptyWorld
           "src/pages" ["about.js"] "index.js" []
           (mkWorld [Demo.aboutPage]
              [GlobCall "**/*.{js}" "src/pages";
               CreatePageCall "about.js" Demo.dir])).
  - reflexivity.
  - by_compute.
  - right. reflexivity.
  - reflexivity.
  - reflexivity.
  - reflexivity.
Defined.

(** X3. The two configuration panics happen exactly when their conditions
    hold: the missing-path panic if and only if the [path] option is absent
    or empty, the path-does-not-exist panic if and only if the path is
    given, [pathCheck] is on and the path does not exist. *)
Theorem config_panic_iff (H : Host) (A : Actions) (extensions : list string)
    (o : Options) (w : World) :
  ((∃ id w', createPagesStatefully H A extensions o w =
             Panicked id MissingPathOption w') ↔
   falsy (opt_path o) = true) ∧
  (∀ p, (∃ id w', createPagesStatefully H A extensions o w =
                  Panicked id (PathDoesNotExist p) w') ↔
        (opt_path o = Some p ∧ p ≠ "" ∧
         default true (opt_pathCheck o) = true ∧ existsSync H p = false)).
Proof.
  unfold createPagesStatefully. split.
  - split.
    + intros (id & w' & Hrun). destruct (falsy (opt_path o)); [done|].
      destruct (_ && _); [done|].
      by destruct (initialScan _ _ _ _ _ _) as [[?|?] ?].
    + intros ->. eauto.
  - intros p. split.
    + intros (id & w' & Hrun).
      destruct (opt_path o) as [pagesPath|]; [|done]. cbn [falsy] in Hrun.
      destruct (decide (pagesPath = "")) as [|Hne]; [done|]. simpl in Hrun.
      destruct (default true (opt_pathCheck o)) eqn:Hcheck;
        destruct (existsSync H pagesPath) eqn:Hex; simpl in Hrun;
        try (by destruct (initialScan _ _ _ _ _ _) as [[?|?] ?]).
      by injection Hrun as <- <- <-.
    + intros (-> & Hne & Hcheck & Hex). cbn [falsy].
      rewrite decide_False by done. simpl. simpl in Hcheck.
      rewrite Hcheck, Hex. simpl. eauto.
Qed.

(** X4. Under the registry of the spec, a start-up whose configuration
    passes always reaches the watching state: [knownFiles] is the set of
    globbed files and the registry holds what it held plus the page of each
    globbed file. *)
Theorem startup_registers_every_file (H : Host) (extensions : list string)
    (o : Options) (w : World) (p : string) :
  opt_path o = Some p → p ≠ "" →
  (default true (opt_pathCheck o) = false ∨ existsSync H p = true) →
  ∃ s w',
    createPagesStatefully H (specActions H) extensions o w = Watching s w' ∧
    knownFiles s = list_to_set (glob H (pagesGlobOf extensions) p) ∧
    ∀ q, q ∈ pages w' ↔
         q ∈ pages w ∨
         ∃ f, f ∈ glob H (pagesGlobOf extensions) p ∧
              q = pageOf H (resolve H (cwd H) p) f.
Proof.
  intros Hp Hne Hcheck. unfold createPagesStatefully. rewrite Hp.
  cbn [falsy]. rewrite decide_False by done. simpl.
  replace (_ && _) with false
    by (simpl in Hcheck; destruct Hcheck as [-> | ->]; [done|];
        by rewrite andb_false_r).
  unfold initialScan. rewrite bind_run. cbn [tell]. rewrite bind_run.
  set (w0 := mkWorld _ _).
  destruct (forEach_create H (resolve H (cwd H) p) (opt_ignore o)
              (glob H (pagesGlobOf extensions) p) w0) as (w1 & -> & Hw1).
  rewrite bind_run. cbn [tell].
  change ((mret ?x : M Session) ?v) with (Ok x, v).
  eexists _, _. split; [done|]. split; [done|]. exact Hw1.
Qed.

Lemma startup_registers_every_file_witness :
  ∃ s w',
    createPagesStatefully Demo.host (specActions Demo.host) Demo.extensions
      Demo.options (mkWorld [Demo.aboutUsPage] []) = Watching s w' ∧
    knownFiles s =
      list_to_set (glob Demo.host (pagesGlobOf Demo.extensions) "src/pages") ∧
    ∀ q, q ∈ pages w' ↔
         q ∈ pages (mkWorld [Demo.aboutUsPage] []) ∨
         ∃ f, f ∈ glob Demo.host (pagesGlobOf Demo.extensions) "src/pages" ∧
              q = pageOf Demo.host
                    (resolve Demo.host (cwd Demo.host) "src/pages") f.
Proof.
  apply (startup_registers_every_file Demo.host Demo.extensions Demo.options
           (mkWorld [Demo.aboutUsPage] []) "src/pages").
  - reflexivity.
  - by_compute.
  - right. reflexivity.
Defined.

(** ** The watch handlers under any registry actions *)

(** X5. If [createPage] throws for a path that is not in [knownFiles], the
    [added] handler panics with id 1 and the message of that exception
    (lines 102-109); [createPage] was called once and the registry is the
    one that call left. *)
Theorem added_failure_panics (A : Actions) (s : Session) (p : string)
    (w : World) (e : string) (ps : list Page) :
  p ∉ knownFiles s →
  createPage A p (pagesDirectory s) (ignore s) (pages w) = (Throw e, ps) →
  onAdded A s p w =
  Panicked "1" (SourceMessage e)
    (mkWorld ps (log w ++ [CreatePageCall p (pagesDirectory s)])).
Proof.
  intros Hk Hthrow. unfold onAdded, addedBody. rewrite decide_False by done.
  by rewrite bind_run, callCreatePage_run, Hthrow.
Qed.

Lemma added_failure_panics_witness :
  onAdded Cases.picky (Demo.session ["about.js"]) "index.js"
    (mkWorld [Demo.aboutPage] []) =
  Panicked "1" (SourceMessage "cannot create index")
    (mkWorld ([Demo.aboutPage] ++ [Demo.aboutUsPage])
       [CreatePageCall "index.js" Demo.dir]).
Proof.
  apply (added_failure_panics Cases.picky (Demo.session ["about.js"])
           "index.js" (mkWorld [Demo.aboutPage] []) "cannot create index").
  - by_compute.
  - reflexivity.
Defined.



Lemma handle_session H A ev s w s' w' :
  handle H A ev s w = Watching s' w' →
  s' = mkSession (pagesDirectory s) (ignore s) (track (knownFiles s) ev).
Proof.
  destruct ev as [p|p]; cbn [handle track].
  - unfold onAdded, addedBody.
    destruct (decide (p ∈ knownFiles s)) as [Hk|Hk].
    + intros [= <- <-].
      replace ({[p]} ∪ knownFiles s) with (knownFiles s) by set_solver.
      by rewrite session_eta.
    + rewrite bind_run, callCreatePage_run.
      by destruct (createPage A _ _ _ _) as [[[]|?] ?]; intros [= <- <-].
  - unfold onRemoved, removedBody. rewrite bind_run. cbn [getPages].
    rewrite bind_run.
    destruct (forEach _ _ _) as [[[]|e] w1]; [|done].
    change ((mret ?x : M Session) ?v) with (Ok x, v).
    by intros [= <- <-].
Qed.

(** X7. As long as no handler panics, [knownFiles] after a run of events is
    the starting set with each event applied in order (insert on added,
    delete on removed), whatever the registry actions did; the pages
    directory and the ignore list never change. *)
Theorem knownFiles_follow_events (H : Host) (A : Actions) (evs : list Event)
    (s : Session) (w : World) (s' : Session) (w' : World) :
  handleAll H A evs s w = Watching s' w' →
  s' = mkSession (pagesDirectory s) (ignore s)
         (foldl track (knownFiles s) evs).
Proof.
  revert s w. induction evs as [|ev evs IH]; intros s w; cbn [handleAll foldl].
  - intros [= <- <-]. by rewrite session_eta.
  - destruct (handle H A ev s w) as [|s1 w1] eqn:Hstep; [done|].
    intros Hrun. apply IH in Hrun as ->.
    by apply handle_session in Hstep as ->.
Qed.

Lemma knownFiles_follow_events_witness :
  Demo.session ["index.js"; "blog.js"] =
  mkSession (pagesDirectory (Demo.session ["about.js"; "index.js"]))
    (ignore (Demo.session ["about.js"; "index.js"]))
    (foldl track (knownFiles (Demo.session ["about.js"; "index.js"]))
       [FileRemoved "about.js"; FileAdded "blog.js"; FileAdded "blog.js"]).
Proof.
  apply (knownFiles_follow_events Demo.host (specActions Demo.host)
           [FileRemoved "about.js"; FileAdded "blog.js"; FileAdded "blog.js"]
           (Demo.session ["about.js"; "index.js"])
           (mkWorld [Demo.aboutPage; Demo.indexPage] [])
           (Demo.session ["index.js"; "blog.js"])
           (mkWorld [Demo.indexPage; Demo.blogPage]
              [DeletePageCall Demo.aboutPage;
               CreatePageCall "blog.js" Demo.dir])).
  vm_compute. reflexivity.
Defined.

Lemma handleAll_app H A evs1 evs2 s w s' w' :
  handleAll H A (evs1 ++ evs2) s w = Watching s' w' →
  ∃ s1 w1,
    handleAll H A evs1 s w = Watching s1 w1 ∧
    handleAll H A evs2 s1 w1 = Watching s' w'.
Proof.
  revert s w. induction evs1 as [|ev evs1 IH]; intros s w;
    cbn [app handleAll].
  - eauto.
  - destruct (handle H A ev s w) as [|s1 w1]; [done|]. apply IH.
Qed.

(** Events about other paths do not change whether a path is known. *)
Lemma handleAll_other H A p evs s w s' w' :
  (∀ ev, ev ∈ evs → pathOf ev ≠ p) →
  handleAll H A evs s w = Watching s' w' →
  (p ∈ knownFiles s' ↔ p ∈ knownFiles s).
Proof.
  revert s w. induction evs as [|ev evs IH]; intros s w Hother;
    cbn [handleAll].
  - by intros [= <- <-].
  - destruct (handle H A ev s w) as [|s1 w1] eqn:Hstep; [done|].
    intros Hrun. rewrite (IH s1 w1) by (eauto using list_elem_of_further).
    apply handle_session in Hstep as ->. cbn [knownFiles].
    assert (pathOf ev ≠ p) by (apply Hother; by left).
    destruct ev; cbn in *; set_solver.
Qed.

(** X8. The last event about a path decides: after a run without panic, the
    path is in [knownFiles] if and only if the last event that names it was
    an [added] event. *)
Theorem last_event_decides (H : Host) (A : Actions) (evs1 : list Event)
    (ev : Event) (evs2 : list Event) (s : Session) (w : World)
    (s' : Session) (w' : World) :
  handleAll H A (evs1 ++ ev :: evs2) s w = Watching s' w' →
  (∀ ev', ev' ∈ evs2 → pathOf ev' ≠ pathOf ev) →
  (pathOf ev ∈ knownFiles s' ↔ isAdded ev = true).
Proof.
  intros Hrun Hlast.
  apply handleAll_app in Hrun as (s1 & w1 & _ & Hrun).
  cbn [handleAll] in Hrun.
  destruct (handle H A ev s1 w1) as [|s2 w2] eqn:Hstep; [done|].
  rewrite (handleAll_other H A (pathOf ev) evs2 s2 w2 s' w' Hlast Hrun).
  apply handle_session in Hstep as ->. cbn [knownFiles].
  destruct ev; cbn; set_solver.
Qed.

Lemma last_event_decides_witness :
  pathOf (FileAdded "blog.js") ∈
    knownFiles (Demo.session ["index.js"; "blog.js"]) ↔
  isAdded (FileAdded "blog.js") = true.
Proof.
  apply (last_event_decides Demo.host (specActions Demo.host)
           [FileAdded "blog.js"; FileRemoved "blog.js"] (FileAdded "blog.js")
           [FileRemoved "about.js"]
           (Demo.session ["about.js"; "index.js"])
           (mkWorld [Demo.aboutPage; Demo.indexPage] [])
           (Demo.session ["index.js"; "blog.js"])
           (mkWorld [Demo.indexPage; Demo.blogPage]
              [CreatePageCall "blog.js" Demo.dir;
               DeletePageCall Demo.blogPage;
               CreatePageCall "blog.js" Demo.dir;
               DeletePageCall Demo.aboutPage])).
  - vm_compute. reflexivity.
  - intros ev' Hin. apply list_elem_of_singleton in Hin. subst ev'.
    by_compute.
Defined.

(** ** The watch handlers under the registry of the spec *)

Lemma filter_ne_absent (pg : Page) (ps : list Page) :
  pg ∉ ps → filter (λ q, q ≠ pg) ps = ps.
Proof.
  induction ps as [|x ps IH]; [done|]. intros Hnot.
  apply not_elem_of_cons in Hnot as [Hne Hnot].
  rewrite filter_cons_True by done. by rewrite IH.
Qed.

(** After a [removed] event the registry is the old one without the page
    with the route and the component of the removed path. *)
Lemma onRemoved_pages H s p w :
  ∃ w',
    onRemoved H (specActions H) s p w =
    Watching (mkSession (pagesDirectory s) (ignore s) (knownFiles s ∖ {[p]}))
      w' ∧
    pages w' = filter (λ q, q ≠ pageOf H (pagesDirectory s) p) (pages w).
Proof.
  destruct (onRemoved_spec H s p w) as (w' & Hrun & Hyes & Hno).
  exists w'. split; [done|].
  destruct (decide (Exists (λ pg, component pg = join H (pagesDirectory s) p)
                      (pages w))) as [Hex|Hnex]; rewrite Exists_exists in *.
  - by apply Hyes.
  - rewrite Hno by (intros pg ? ?; apply Hnex; eauto).
    symmetry. apply filter_ne_absent. intros Hin. apply Hnex. eauto.
Qed.

(** X9. A file that appears and disappears leaves no trace: if the path was
    not known and its page not registered, an [added] event followed by a
    [removed] event for it gives back the same session and the same
    registry. *)
Theorem add_then_remove_restores (H : Host) (s : Session) (p : string)
    (w : World) :
  p ∉ knownFiles s →
  pageOf H (pagesDirectory s) p ∉ pages w →
  ∃ w',
    handleAll H (specActions H) [FileAdded p; FileRemoved p] s w =
    Watching s w' ∧
    pages w' = pages w.
Proof.
  intros Hk Hpg. cbn [handleAll handle]. rewrite onAdded_new by done.
  set (s1 := mkSession _ _ _). set (w1 := mkWorld _ _).
  destruct (onRemoved_pages H s1 p w1) as (w' & -> & Hpages).
  exists w'. split.
  - subst s1. cbn [pagesDirectory ignore knownFiles].
    replace (({[p]} ∪ knownFiles s) ∖ {[p]}) with (knownFiles s)
      by set_solver.
    by rewrite session_eta.
  - rewrite Hpages. subst s1 w1. cbn [pages pagesDirectory].
    unfold register. rewrite decide_False by done.
    rewrite filter_app, filter_ne_absent by done.
    rewrite filter_cons_False by (intros Hne; by apply Hne).
    by rewrite app_nil_r.
Qed.

Lemma add_then_remove_restores_witness :
  ∃ w',
    handleAll Demo.host (specActions Demo.host)
      [FileAdded "blog.js"; FileRemoved "blog.js"]
      (Demo.session ["about.js"]) (mkWorld [Demo.aboutPage] []) =
    Watching (Demo.session ["about.js"]) w' ∧
    pages w' = pages (mkWorld [Demo.aboutPage] []).
Proof.
  apply (add_then_remove_restores Demo.host (Demo.session ["about.js"])
           "blog.js" (mkWorld [Demo.aboutPage] [])).
  - by_compute.
  - by_compute.
Defined.

(** X10. A changed file, seen as a [removed] event followed by an [added]
    event for the same path, always ends with the path known and its page
    registered last, exactly once; every other page keeps its place and the
    other members of [knownFiles] are untouched. *)
Theorem remove_then_add_reregisters (H : Host) (s : Session) (p : string)
    (w : World) :
  ∃ s' w',
    handleAll H (specActions H) [FileRemoved p; FileAdded p] s w =
    Watching s' w' ∧
    knownFiles s' = {[p]} ∪ knownFiles s ∧
    pages w' =
      filter (λ q, q ≠ pageOf H (pagesDirectory s) p) (pages w) ++
      [pageOf H (pagesDirectory s) p].
Proof.
  cbn [handleAll handle].
  destruct (onRemoved_pages H s p w) as (w1 & -> & Hpages).
  rewrite onAdded_new by (cbn; set_solver).
  eexists _, _. split; [done|]. cbn [knownFiles pages pagesDirectory].
  split; [apply set_eq; intros x; destruct (decide (x = p)); set_solver|].
  unfold register. rewrite Hpages.
  rewrite decide_False; [done|].
  intros Hin. apply list_elem_of_filter in Hin as [Hne _]. by apply Hne.
Qed.

(** X11. A [removed] event never adds a page and never touches a page other
    than the one with the route and the component of the removed path; in
    [knownFiles] only the removed path can change. *)
Theorem removed_frame (H : Host) (s : Session) (p : string) (w : World) :
  ∃ s' w',
    onRemoved H (specActions H) s p w = Watching s' w' ∧
    (∀ q, q ∈ pages w' ↔ q ∈ pages w ∧ q ≠ pageOf H (pagesDirectory s) p) ∧
    (∀ f, f ≠ p → (f ∈ knownFiles s' ↔ f ∈ knownFiles s)) ∧
    p ∉ knownFiles s'.
Proof.
  destruct (onRemoved_pages H s p w) as (w' & Hrun & Hpages).
  eexists _, w'. split; [exact Hrun|]. cbn [knownFiles].
  split; [|set_solver].
  intros q. rewrite Hpages, list_elem_of_filter. tauto.
Qed.

(** ** The collection scan *)

(** A file either leaves the registry as it is or sets one key to itself. *)
Lemma scanFile_result H S pagesPath f known known' :
  scanFile H S pagesPath f known = Ok known' →
  known' = known ∨ ∃ name, known' = <[name := f]> known.
Proof.
  unfold scanFile.
  destruct (requireResolve S _) as [absolutePath|]; [|done].
  destruct (collectionExtractQueryString S _) as [[q|]|]; [|done..].
  destruct (falsy q); [intros [= <-]; by left|].
  destruct (parse S _) as [ast|]; [|done]. cbn.
  destruct (firstSelectionName ast) as [name|]; [|done]. cbn.
  intros [= <-]. right. eauto.
Qed.

Lemma scanFile_no_query H S pagesPath f known :
  hasNoQuery H S pagesPath f → scanFile H S pagesPath f known = Ok known.
Proof.
  intros (absolutePath & q & Hres & Hq & Hfalsy).
  by eapply scanFile_skips.
Qed.

Lemma scanFiles_keeps H S pagesPath files known known' :
  scanFiles H S pagesPath files known = (Ok tt, known') →
  (∀ k, is_Some (known !! k) → is_Some (known' !! k)) ∧
  (∀ k f, known' !! k = Some f → known !! k = Some f ∨ f ∈ files).
Proof.
  revert known. induction files as [|g files IH]; intros known;
    cbn [scanFiles].
  - intros [= <-]. split; [done|]. intros k f ?. by left.
  - destruct (scanFile H S pagesPath g known) as [[known1|e]|id] eqn:Hg;
      [|done..].
    intros Hrun. apply IH in Hrun as [Hkeep Hnew].
    apply scanFile_result in Hg as [->|[name ->]].
    + split; [done|]. intros k f Hk.
      destruct (Hnew k f Hk); [by left|right; by right].
    + split.
      * intros k Hk. apply Hkeep.
        destruct (decide (name = k)) as [->|Hne].
        -- rewrite lookup_insert_eq. eauto.
        -- by rewrite lookup_insert_ne.
      * intros k f Hk. destruct (Hnew k f Hk) as [Hold|Hin].
        -- destruct (decide (name = k)) as [->|Hne].
           ++ rewrite lookup_insert_eq in Hold. injection Hold as <-.
              right. by left.
           ++ rewrite lookup_insert_ne in Hold by done. by left.
        -- right. by right.
Qed.

(** X12. A scan that goes through never unregisters a collection name, and
    every entry it wrote maps to one of the globbed template files. *)
Theorem scan_keeps_registrations (H : Host) (S : ScanHost)
    (pagesPath : string) (known known' : gmap string string) :
  onPreInit H S pagesPath known = ScanDone known' →
  (∀ k, is_Some (known !! k) → is_Some (known' !! k)) ∧
  (∀ k f, known' !! k = Some f →
          known !! k = Some f ∨ f ∈ glob H collectionsGlob pagesPath).
Proof.
  unfold onPreInit.
  destruct (scanFiles _ _ _ _ _) as [[[[]|e]|id] known1] eqn:Hrun; [|done..].
  intros [= <-]. by apply scanFiles_keeps in Hrun.
Qed.

Lemma scan_keeps_registrations_witness :
  (∀ k, is_Some (({[ "allOld" := "old.js" ]} : gmap string string) !! k) →
        is_Some (({[ "allOld" := "old.js";
                     "allPost" := "{Article.slug}.js" ]}
                  : gmap string string) !! k)) ∧
  (∀ k f, ({[ "allOld" := "old.js"; "allPost" := "{Article.slug}.js" ]}
           : gmap string string) !! k = Some f →
          ({[ "allOld" := "old.js" ]} : gmap string string) !! k = Some f ∨
          f ∈ glob Demo.host collectionsGlob "src/pages").
Proof.
  apply (scan_keeps_registrations Demo.host Demo.scanHost "src/pages").
  vm_compute. reflexivity.
Defined.



Lemma scanFiles_lookup_other H S pagesPath files known known' name v :
  (∀ g, g ∈ files →
        hasNoQuery H S pagesPath g ∨
        ∃ other, other ≠ name ∧ registersAs H S pagesPath g other) →
  scanFiles H S pagesPath files known = (Ok tt, known') →
  known !! name = Some v → known' !! name = Some v.
Proof.
  revert known. induction files as [|g files IH]; intros known Hfiles;
    cbn [scanFiles].
  - by intros [= <-].
  - destruct (Hfiles g) as [Hskip|(other & Hne & q & ast & Hq)]; [by left|..].
    + rewrite scanFile_no_query by done.
      apply IH. intros g' ?. apply Hfiles. by right.
    + rewrite (scanFile_registers _ _ _ _ _ _ _ _ Hq).
      intros Hrun Hname. eapply IH; [|exact Hrun|].
      * intros g' ?. apply Hfiles. by right.
      * by rewrite lookup_insert_ne.
Qed.

(** X14. Among any number of template files, the last one that yields a
    plural type name wins: if the scan goes through, and no file after [f]
    yields the name [f] yields, the name maps to [f], whatever was
    registered under it before. *)
Theorem last_registration_wins (H : Host) (S : ScanHost) (pagesPath : string)
    (l1 : list string) (f : string) (l2 : list string) (name : string)
    (known known' : gmap string string) :
  registersAs H S pagesPath f name →
  (∀ g, g ∈ l2 →
        hasNoQuery H S pagesPath g ∨
        ∃ other, other ≠ name ∧ registersAs H S pagesPath g other) →
  scanFiles H S pagesPath (l1 ++ f :: l2) known = (Ok tt, known') →
  known' !! name = Some f.
Proof.
  intros (q & ast & Hq) Hl2. rewrite scanFiles_app.
  destruct (scanFiles H S pagesPath l1 known) as [[[[]|e]|id] known1];
    [|done..].
  cbn [scanFiles]. rewrite (scanFile_registers _ _ _ _ _ _ _ _ Hq).
  intros Hrun. eapply scanFiles_lookup_other; [exact Hl2|exact Hrun|].
  apply lookup_insert_eq.
Qed.

Lemma last_registration_wins_witness :
  ({[ "allPost" := "{Article.slug}.js" ]} : gmap string string) !! "allPost"
  = Some "{Article.slug}.js".
Proof.
  apply (last_registration_wins Demo.host Demo.scanHost "src/pages"
           ["{Post.slug}.js"] "{Article.slug}.js" ["index.js"] "allPost"
           {[ "allPost" := "old.js" ]}).
  - exists Demo.postsFragmentQuery,
      [OperationDefinition
         [Field "allPost" [FragmentSpread collectionFragment]]],
      "/site/src/pages/{Article.slug}.js".
    repeat split; try reflexivity. by_compute.
  - intros g Hin. apply list_elem_of_singleton in Hin. subst g.
    left. exists "/site/src/pages/index.js", None. by repeat split.
  - vm_compute. reflexivity.
Defined.

(** ** The registry and the [gatsbyPath] field *)

Lemma all_prefix_inj (T T' : string) : "all" +:+ T = "all" +:+ T' → T = T'.
Proof. simpl. intros Heq. by injection Heq. Qed.

(** X15. Scanning a template whose first selection is named [all] followed
    by a type name gives that type the [gatsbyPath] field, with the resolver
    of this file, and changes the fields of no other type. *)
Theorem scanned_type_gets_field (H : Host) (S : ScanHost) (R : ResolverHost)
    (pagesPath f q : string) (ast : list DefinitionNode) (T : string)
    (known : gmap string string) (extensions : list string) :
  yieldsQuery H S pagesPath f q ast ("all" +:+ T) →
  ∃ known',
    scanFile H S pagesPath f known = Ok known' ∧
    setFieldsOnGraphQLNodeType R known' T extensions =
      Some (resolveGatsbyPath R extensions) ∧
    (∀ T', T' ≠ T →
       setFieldsOnGraphQLNodeType R known' T' extensions =
       setFieldsOnGraphQLNodeType R known T' extensions).
Proof.
  intros Hq. exists (<["all" +:+ T := f]> known).
  split; [by eapply scanFile_registers|].
  unfold setFieldsOnGraphQLNodeType. split.
  - rewrite lookup_insert_eq. by rewrite decide_True by eauto.
  - intros T' Hne.
    rewrite lookup_insert_ne; [done|].
    intros Heq. apply Hne. symmetry. by apply all_prefix_inj.
Qed.

Lemma scanned_type_gets_field_witness :
  ∃ known',
    scanFile Demo.host Demo.scanHost "src/pages" "{Post.slug}.js" ∅ =
    Ok known' ∧
    setFieldsOnGraphQLNodeType (Demo.resolverHost Demo.nodeOf) known' "Post"
      Demo.extensions =
      Some (resolveGatsbyPath (Demo.resolverHost Demo.nodeOf)
              Demo.extensions) ∧
    (∀ T', T' ≠ "Post" →
       setFieldsOnGraphQLNodeType (Demo.resolverHost Demo.nodeOf) known' T'
         Demo.extensions =
       setFieldsOnGraphQLNodeType (Demo.resolverHost Demo.nodeOf) ∅ T'
         Demo.extensions).
Proof.
  apply (scanned_type_gets_field Demo.host Demo.scanHost
           (Demo.resolverHost Demo.nodeOf) "src/pages" "{Post.slug}.js"
           Demo.postsQuery
           [OperationDefinition
              [Field "allPost" [Field "nodes" [Field "id" []]]]]
           "Post" ∅ Demo.extensions).
  exists "/site/src/pages/{Post.slug}.js".
  repeat split; try reflexivity. by_compute.
Defined.

(** X16. No type gets the field before a template is registered, and a
    template registered under a name that does not begin with [all] (such as
    a query whose outermost selection is the fragment spread itself) gives
    the field to no type. *)
Theorem unprefixed_name_gives_no_field (R : ResolverHost) (name f : string)
    (known : gmap string string) (extensions : list string) :
  (∀ T, name ≠ "all" +:+ T) →
  (∀ T, setFieldsOnGraphQLNodeType R ∅ T extensions = None) ∧
  (∀ T, setFieldsOnGraphQLNodeType R (<[name := f]> known) T extensions =
        setFieldsOnGraphQLNodeType R known T extensions).
Proof.
  intros Hname. unfold setFieldsOnGraphQLNodeType. split.
  - intros T. rewrite lookup_empty. rewrite decide_False; [done|].
    by intros [? ?].
  - intros T. by rewrite lookup_insert_ne.
Qed.

Lemma unprefixed_name_gives_no_field_witness :
  (∀ T, setFieldsOnGraphQLNodeType (Demo.resolverHost Demo.nodeOf) ∅ T
          Demo.extensions = None) ∧
  (∀ T, setFieldsOnGraphQLNodeType (Demo.resolverHost Demo.nodeOf)
          (<[collectionFragment := "{Post.slug}.js"]> ∅) T Demo.extensions =
        setFieldsOnGraphQLNodeType (Demo.resolverHost Demo.nodeOf) ∅ T
          Demo.extensions).
Proof.
  apply (unprefixed_name_gives_no_field (Demo.resolverHost Demo.nodeOf)
           collectionFragment "{Post.slug}.js" ∅ Demo.extensions).
  intros T. cbn. discriminate.
Defined.

(** ** The resolver when validation fails *)

(** X17. When [validatePathQuery] throws, the resolver throws the same
    exception and [derivePath] is not consulted; by then the copy has been
    made and, for a string parent, [getNode] has been called. *)
Theorem invalid_path_query_propagates (R : ResolverHost)
    (extensions : list string) (h : Heap) (source : nat) (src : Obj)
    (filePath e : string) :
  h !! source = Some src →
  validatePathQuery R filePath extensions = Throw e →
  returned (resolveGatsbyPath R extensions h source filePath) = Throw e ∧
  lookups (resolveGatsbyPath R extensions h source filePath) =
    match getProp src "parent" with
    | VString id => [id]
    | _ => []
    end ∧
  length (heapAfter (resolveGatsbyPath R extensions h source filePath)) =
    Datatypes.S (length h).
Proof.
  intros Hsrc Hval. unfold resolveGatsbyPath, attachParent.
  rewrite Hsrc.
  destruct (getProp src "parent"); rewrite Hval; cbn;
    rewrite ?length_alter, length_app; cbn; repeat split; lia.
Qed.

Lemma invalid_path_query_propagates_witness :
  returned (resolveGatsbyPath Cases.rejecting Demo.extensions Demo.heap 0
              "{Post.parent__name}.js") = Throw "invalid path" ∧
  lookups (resolveGatsbyPath Cases.rejecting Demo.extensions Demo.heap 0
             "{Post.parent__name}.js") =
    match getProp [("id", VString "post-1"); ("parent", VString "file-1");
                   ("slug", VString "hello")] "parent" with
    | VString id => [id]
    | _ => []
    end ∧
  length (heapAfter (resolveGatsbyPath Cases.rejecting Demo.extensions
                       Demo.heap 0 "{Post.parent__name}.js")) =
    Datatypes.S (length Demo.heap).
Proof.
  apply (invalid_path_query_propagates Cases.rejecting Demo.extensions
           Demo.heap 0).
  - reflexivity.
  - reflexivity.
Defined.

(** ** The glob of the pages *)

Lemma slice1_dotted (es : list string) :
  map slice1 (map (String ".") es) = es.
Proof. induction es as [|e es IH]; [done|]. cbn. by rewrite IH. Qed.

(** X18. For extensions written with their leading dot, the pages glob lists
    the bare extensions, comma separated, between the braces. *)
Theorem pagesGlob_strips_dots (es : list string) :
  pagesGlobOf (map (String ".") es) =
  "**/*.{" +:+ String.concat "," es +:+ "}".
Proof. unfold pagesGlobOf, extsOf. by rewrite slice1_dotted. Qed.

(** ** Pages of known files *)



